(** * Arogya Wellness Assistant: agents, key pool, history and user stores

    A shallow embedding of [services/agents.py], [services/history_store.py]
    and [services/user_auth_store.py], with the properties their
    specification states about them.

    Stateful Python code is written in a small state-and-exception monad
    over the process state; dictionaries are finite maps, lists are lists,
    and a Python [str] is the list of its Unicode code points. *)

From Stdlib Require Import Strings.String Strings.Ascii.
From stdpp Require Import gmap list fin_maps.

(** ** Text *)

(** A Python [str]: a sequence of code points.  [s[:n]] is [take n s],
    [len(s)] is [length s], and an f-string is a concatenation. *)
Abbreviation char := N.
Abbreviation str := (list N).

(** An ASCII literal of the source, character by character. *)
Definition lit (s : string) : str :=
  (λ a, N_of_ascii a) <$> list_ascii_of_string s.
Arguments lit s%_string.

(** The escape [\n]. *)
Definition nl : str := [10%N].

(** U+2011 NON-BREAKING HYPHEN, used by the fitness prompts
    ("low‑risk", "low‑intensity"). *)
Definition nbhy : str := [8209%N].

(** [needle in haystack] on Python strings. *)
Definition contains (haystack needle : str) : Prop :=
  ∃ pre post, haystack = pre ++ needle ++ post.

(** ** services/api_key_pool.py *)

Module api_key_pool.

Abbreviation Credential := (list N).

(** Modelled from the spec: the module [services/api_key_pool.py]
    ([get_next_key], [mark_key_quota_exceeded]) is not among the sources.
    The pool owns the ordered collection of credentials loaded at process
    start (at least one), a cursor for rotation, and the availability
    state of every credential; a credential is identified by its string. *)
Record KeyPool := mkPool {
  first_key : Credential;
  other_keys : list Credential;
  cursor : nat;
  exhausted : gset Credential
}.

Definition keys (p : KeyPool) : list Credential :=
  first_key p :: other_keys p.

Definition available (p : KeyPool) (k : Credential) : Prop :=
  k ∉ exhausted p.

Definition set_cursor (c : nat) (p : KeyPool) : KeyPool :=
  {| first_key := first_key p; other_keys := other_keys p;
     cursor := c; exhausted := exhausted p |}.

(** Modelled from the spec: [next()] returns one credential selected by
    round-robin among those not marked exhausted; if none is available it
    returns the next credential in rotation order regardless (degraded
    mode) rather than raising an error.  The rotation order starts at the
    cursor, and the cursor moves just past the credential handed out. *)
Definition get_next_key (p : KeyPool) : Credential * KeyPool :=
  let n := length (keys p) in
  match list_find (available p) (rotate (cursor p) (keys p)) with
  | Some (i, k) => (k, set_cursor ((cursor p + i + 1) mod n) p)
  | None =>
      (default (first_key p) (keys p !! (cursor p mod n)),
       set_cursor ((cursor p + 1) mod n) p)
  end.

(** Modelled from the spec: [mark_exhausted(credential)] flips that
    credential's state to exhausted, is idempotent, and does not affect
    the cursor position. *)
Definition mark_key_quota_exceeded (k : Credential) (p : KeyPool) : KeyPool :=
  {| first_key := first_key p; other_keys := other_keys p;
     cursor := cursor p; exhausted := {[ k ]} ∪ exhausted p |}.

(** The calls a process makes on its pool, in order. *)
Inductive call :=
| Next
| MarkExhausted (k : Credential).

Definition do_call (c : call) (p : KeyPool) : KeyPool :=
  match c with
  | Next => snd (get_next_key p)
  | MarkExhausted k => mark_key_quota_exceeded k p
  end.

Definition do_calls (cs : list call) (p : KeyPool) : KeyPool :=
  foldl (λ q c, do_call c q) p cs.

(** The credentials handed out by [n] consecutive calls of [next()]. *)
Fixpoint draw (n : nat) (p : KeyPool) : list Credential :=
  match n with
  | 0 => []
  | S n => (get_next_key p).1 :: draw n (get_next_key p).2
  end.

End api_key_pool.


(** ** services/memory.py *)

Module memory.

Inductive Message :=
| SystemMessage (content : str)
| HumanMessage (content : str)
| AIMessage (content : str).

(** One agent invocation as recorded in the transcript. *)
Record ConversationTurn := mkTurn {
  turn_input : str;
  turn_output : str
}.

(** Modelled from the spec: the module [services/memory.py]
    ([get_shared_memory]) is not among the sources.  Shared Memory is an
    ordered sequence of turns; [history()] returns the turns in order as
    (input, output) pairs suitable for inclusion as prior conversational
    turns in a message list. *)
Definition chat_history (turns : list ConversationTurn) : list Message :=
  turns ≫= λ t, [HumanMessage (turn_input t); AIMessage (turn_output t)].

(** Modelled from the spec: [append(input_label, output_text)] adds one
    turn at the end; no deletion or mutation operation exists. *)
Definition append_turn (input output : str)
    (turns : list ConversationTurn) : list ConversationTurn :=
  turns ++ [mkTurn input output].

End memory.

(** ** services/agents.py *)

Module agents.

Import api_key_pool memory.

(** The chat model handle built by [_make_llm_with_key]; its sampling
    temperature is the constant 0.0. *)
Record ChatOpenAI := mkLLM {
  model : str;
  api_key : Credential;
  base_url : str
}.

(** What the agents are linked against: the configured model name
    ([config.settings]); the remote completion service behind
    [llm.ainvoke], which from its current state answers a request with the
    content of its reply or with the [Exception] it raises, and moves to
    its next state; and the text the knowledge retriever ([services.rag])
    returns for a query. *)
Class Collaborators := {
  GROQ_MODEL_NAME : str;
  Error : Type;
  Remote : Type;
  complete : Remote → ChatOpenAI → list Message → (Error + str) * Remote;
  knowledge_base : str → str
}.

Section Agents.
Context `{Collaborators}.

(** What a run leaves behind for an observer: every call made on a
    collaborator, in order, with the remote call's outcome. *)
Inductive Event :=
| KeyHandedOut (k : Credential)
| KeyMarkedExhausted (k : Credential)
| RemoteCall (llm : ChatOpenAI) (messages : list Message) (reply : Error + str)
| KnowledgeFetch (query : str).

(** The process-wide state the agents share. *)
Record World := mkWorld {
  key_pool : KeyPool;
  shared_memory : list ConversationTurn;
  remote : Remote;
  journal : list Event
}.

Inductive Outcome (A : Type) :=
| Returned (a : A)
| Raised (e : Error).
Arguments Returned {A} a.
Arguments Raised {A} e.

(** A coroutine of the module, run to completion on the shared state:
    invocations follow one another, as the pipeline driver awaits each
    before starting the next. *)
Definition M (A : Type) : Type := World → Outcome A * World.

#[local] Instance M_ret : MRet M := λ A a w, (Returned a, w).

#[local] Instance M_bind : MBind M := λ A B f m w,
  match m w with
  | (Returned a, w') => f a w'
  | (Raised e, w') => (Raised e, w')
  end.

(** [try: body except Exception: handler]; what [body] did to the state
    before raising stays done.  Every failure of the remote call is an
    [Exception], so the handler sees them all. *)
Definition try_except {A} (body : M A) (handler : Error → M A) : M A :=
  λ w, match body w with
       | (Raised e, w') => handler e w'
       | r => r
       end.

Definition log (ev : Event) (w : World) : World :=
  mkWorld (key_pool w) (shared_memory w) (remote w) (journal w ++ [ev]).

Definition get_next_key : M Credential := λ w,
  let '(k, p) := api_key_pool.get_next_key (key_pool w) in
  (Returned k,
   log (KeyHandedOut k) (mkWorld p (shared_memory w) (remote w) (journal w))).

Definition mark_key_quota_exceeded (k : Credential) : M unit := λ w,
  (Returned (),
   log (KeyMarkedExhausted k)
     (mkWorld (api_key_pool.mark_key_quota_exceeded k (key_pool w))
        (shared_memory w) (remote w) (journal w))).

(** [memory.load_memory_variables({})["chat_history"]], where [memory]
    is the process-wide buffer that [_memory()] returns. *)
Definition load_memory_variables : M (list Message) := λ w,
  (Returned (chat_history (shared_memory w)), w).

(** [memory.save_context({"input": input}, {"output": output})] *)
Definition save_context (input output : str) : M unit := λ w,
  (Returned (),
   mkWorld (key_pool w) (append_turn input output (shared_memory w))
     (remote w) (journal w)).

(** [retrieve_context(query)] of [services.rag]. *)
Definition retrieve_context (query : str) : M str := λ w,
  (Returned (knowledge_base query), log (KnowledgeFetch query) w).

(** [(await llm.ainvoke(messages)).content] *)
Definition ainvoke (llm : ChatOpenAI) (messages : list Message) : M str := λ w,
  let '(reply, r) := complete (remote w) llm messages in
  (match reply with inl e => Raised e | inr content => Returned content end,
   log (RemoteCall llm messages reply)
     (mkWorld (key_pool w) (shared_memory w) r (journal w))).

(** The endpoint every handle is pointed at. *)
Definition groq_url : str := lit "https://api.groq.com/openai/v1".

Definition _make_llm_with_key : M (ChatOpenAI * Credential) :=
  api_key ← get_next_key;
  let llm := mkLLM GROQ_MODEL_NAME api_key groq_url in
  mret (llm, api_key).

(** *** Symptom agent *)

Definition symptom_system : str :=
  lit "You are a safe medical triage assistant. "
  ++ lit "You only assess severity and suggest if the user should see a doctor. "
  ++ lit "Do not provide diagnoses or prescriptions." ++ nl ++ nl
  ++ lit "You may consider structured information from a lab/medical report "
  ++ lit "if it is provided, but still MUST NOT diagnose or prescribe.".

Definition symptom_request (symptoms report : str) : str :=
  lit "Analyze these symptoms and their possible severity." ++ nl ++ nl
  ++ lit "Symptoms:" ++ nl ++ symptoms ++ nl ++ nl
  ++ lit "Medical report text (may be empty):" ++ nl ++ report.

Definition symptom_input (symptoms report : str) : str :=
  lit "[symptom_agent] symptoms=" ++ symptoms
  ++ lit " report_snippet=" ++ take 120 report.

Definition symptom_agent (symptoms report : str) : M str :=
  history ← load_memory_variables;
  let messages :=
    [SystemMessage symptom_system] ++ history
    ++ [HumanMessage (symptom_request symptoms report)] in
  '(llm, key) ← _make_llm_with_key;
  result ← try_except (ainvoke llm messages)
    (λ _, mark_key_quota_exceeded key;;
          '(llm, key) ← _make_llm_with_key;
          ainvoke llm messages);
  save_context (symptom_input symptoms report) result;;
  mret result.

(** *** Lifestyle agent *)

Definition lifestyle_system : str :=
  lit "You are a lifestyle coach collaborating with other agents. "
  ++ lit "Suggest simple lifestyle habits, sleep hygiene, stress management, "
  ++ lit "and daily routine tips. Keep suggestions safe and generic." ++ nl ++ nl
  ++ lit "If lab values or diagnoses are mentioned in the report, you may "
  ++ lit "reference them in very general language (for example 'elevated "
  ++ lit "blood sugar'), but do NOT add new diagnoses or change treatment.".

Definition lifestyle_prompt (symptoms report : str) : str :=
  lit "Given the conversation so far, the user's symptoms, and any available "
  ++ lit "medical report text, suggest lifestyle changes and constraints."
  ++ nl ++ nl
  ++ lit "Symptoms:" ++ nl ++ symptoms ++ nl ++ nl
  ++ lit "Medical report text (may be empty):" ++ nl ++ report.

Definition lifestyle_agent (symptoms report : str) : M str :=
  history ← load_memory_variables;
  let prompt := lifestyle_prompt symptoms report in
  let messages :=
    [SystemMessage lifestyle_system] ++ history ++ [HumanMessage prompt] in
  '(llm, key) ← _make_llm_with_key;
  result ← try_except (ainvoke llm messages)
    (λ _, mark_key_quota_exceeded key;;
          '(llm, key) ← _make_llm_with_key;
          ainvoke llm messages);
  save_context (lit "[lifestyle_agent] " ++ take 160 prompt) result;;
  mret result.

(** *** Diet agent *)

Definition diet_system : str :=
  lit "You are a dietician collaborating with other agents to give general diet guidance. "
  ++ lit "Never claim to cure diseases or override a doctor's advice. "
  ++ lit "Do not name prescription medicines or doses.".

Definition diet_prompt (symptoms report lifestyle_notes kb : str) : str :=
  lit "User symptoms:" ++ nl ++ symptoms ++ nl ++ nl
  ++ lit "Relevant medical report text (may be empty):" ++ nl ++ report
  ++ nl ++ nl
  ++ lit "Lifestyle information from lifestyle_agent:" ++ nl ++ lifestyle_notes
  ++ nl ++ nl
  ++ lit "Evidence / knowledge base snippets:" ++ nl ++ kb ++ nl ++ nl
  ++ lit "Suggest a safe, balanced diet plan. Mention foods to prefer and foods to avoid. "
  ++ lit "Highlight that this is not a replacement for a dietician or doctor.".

Definition diet_agent (symptoms report lifestyle_notes : str) : M str :=
  history ← load_memory_variables;
  kb ← retrieve_context symptoms;
  let prompt := diet_prompt symptoms report lifestyle_notes kb in
  let messages :=
    [SystemMessage diet_system] ++ history ++ [HumanMessage prompt] in
  '(llm, key) ← _make_llm_with_key;
  result ← try_except (ainvoke llm messages)
    (λ _, mark_key_quota_exceeded key;;
          '(llm, key) ← _make_llm_with_key;
          ainvoke llm messages);
  save_context (lit "[diet_agent] " ++ take 160 prompt) result;;
  mret result.

(** *** Fitness agent *)

Definition fitness_system : str :=
  lit "You are a cautious fitness coach. "
  ++ lit "You design simple, low" ++ nbhy
  ++ lit "intensity plans that are generally safe. "
  ++ lit "Always recommend consulting a doctor before heavy exercise.".

Definition fitness_prompt (symptoms diet_notes : str) : str :=
  lit "User symptoms:" ++ nl ++ symptoms ++ nl ++ nl
  ++ lit "Diet constraints from diet_agent:" ++ nl ++ diet_notes ++ nl ++ nl
  ++ lit "Recommend only low" ++ nbhy
  ++ lit "risk, gentle physical activities, and clearly tell the "
  ++ lit "user to stop if they feel pain or discomfort. Always remind them to talk "
  ++ lit "to their doctor before starting or intensifying exercise.".

Definition fitness_agent (symptoms diet_notes : str) : M str :=
  history ← load_memory_variables;
  let prompt := fitness_prompt symptoms diet_notes in
  let messages :=
    [SystemMessage fitness_system] ++ history ++ [HumanMessage prompt] in
  '(llm, key) ← _make_llm_with_key;
  result ← try_except (ainvoke llm messages)
    (λ _, mark_key_quota_exceeded key;;
          '(llm, key) ← _make_llm_with_key;
          ainvoke llm messages);
  save_context (lit "[fitness_agent] " ++ take 160 prompt) result;;
  mret result.

(** *** The four variants side by side *)

Inductive Variant := Symptom | Lifestyle | Diet | Fitness.

(** The inputs to one agent call; an agent reads the fields its signature
    names and ignores the others. *)
Record AgentRequest := mkRequest {
  req_symptoms : str;
  req_report : str;
  req_lifestyle_notes : str;
  req_diet_notes : str
}.

Definition invoke (v : Variant) (req : AgentRequest) : M str :=
  match v with
  | Symptom => symptom_agent (req_symptoms req) (req_report req)
  | Lifestyle => lifestyle_agent (req_symptoms req) (req_report req)
  | Diet =>
      diet_agent (req_symptoms req) (req_report req) (req_lifestyle_notes req)
  | Fitness => fitness_agent (req_symptoms req) (req_diet_notes req)
  end.

(** The content of the [SystemMessage] each agent opens with. *)
Definition system_instruction (v : Variant) : str :=
  match v with
  | Symptom => symptom_system
  | Lifestyle => lifestyle_system
  | Diet => diet_system
  | Fitness => fitness_system
  end.

(** The content of the [HumanMessage] each agent closes with; [kb] is what
    the knowledge retriever returned to the Diet agent. *)
Definition task_message (v : Variant) (req : AgentRequest) (kb : str) : str :=
  match v with
  | Symptom => symptom_request (req_symptoms req) (req_report req)
  | Lifestyle => lifestyle_prompt (req_symptoms req) (req_report req)
  | Diet =>
      diet_prompt (req_symptoms req) (req_report req)
        (req_lifestyle_notes req) kb
  | Fitness => fitness_prompt (req_symptoms req) (req_diet_notes req)
  end.

(** The ["input"] each agent hands to [memory.save_context]. *)
Definition recorded_input (v : Variant) (req : AgentRequest) (kb : str) : str :=
  match v with
  | Symptom => symptom_input (req_symptoms req) (req_report req)
  | Lifestyle => lit "[lifestyle_agent] " ++ take 160 (task_message v req kb)
  | Diet => lit "[diet_agent] " ++ take 160 (task_message v req kb)
  | Fitness => lit "[fitness_agent] " ++ take 160 (task_message v req kb)
  end.

(** The knowledge-base lookups of each agent. *)
Definition knowledge_queries (v : Variant) (req : AgentRequest) : list str :=
  match v with
  | Diet => [req_symptoms req]
  | _ => []
  end.

(** *** Reading the journal *)

Definition remote_calls (evs : list Event)
    : list (ChatOpenAI * list Message * (Error + str)) :=
  evs ≫= λ ev,
    match ev with RemoteCall llm ms reply => [(llm, ms, reply)] | _ => [] end.

Definition marked_exhausted (evs : list Event) : list Credential :=
  evs ≫= λ ev, match ev with KeyMarkedExhausted k => [k] | _ => [] end.

Definition keys_handed_out (evs : list Event) : list Credential :=
  evs ≫= λ ev, match ev with KeyHandedOut k => [k] | _ => [] end.

Definition knowledge_fetches (evs : list Event) : list str :=
  evs ≫= λ ev, match ev with KnowledgeFetch q => [q] | _ => [] end.

(** What a run added to the journal. *)
Definition events_since (w w' : World) : list Event :=
  drop (length (journal w)) (journal w').

End Agents.

Arguments Returned {_ A} a.
Arguments Raised {_ A} e.

End agents.

(** ** services/history_store.py *)

Module history_store.

Section HistoryStore.
(** A history entry as it is stored in, and read back from, the JSON file. *)
Context {Entry : Type}.

(** [storage/history.json]: absent, or a JSON object from user identifier
    to that user's list of entries.  A user identifier is a string, as the
    keys of a JSON object are.  Reading and writing the file succeed:
    failures of the file system are outside the model. *)
Abbreviation File := (option (gmap str (list Entry))).

Definition load (file : File) : gmap str (list Entry) :=
  match file with
  | None => ∅
  | Some data => data
  end.

Definition save (data : gmap str (list Entry)) : File := Some data.

(** [data.setdefault(key, value)]: the value stored under [key], after
    storing [value] there when the key was missing. *)
Definition setdefault (key : str) (value : list Entry)
    (data : gmap str (list Entry)) : list Entry * gmap str (list Entry) :=
  match data !! key with
  | Some stored => (stored, data)
  | None => (value, <[key := value]> data)
  end.

(** The first definition of the pair, lines 32-47. *)
Definition save_history_1 (user_id : str) (entry : Entry) (file : File) : File :=
  let data := load file in
  let '(entries, data) := setdefault user_id [] data in
  let data := <[user_id := entries ++ [entry]]> data in
  save data.

Definition get_history_1 (user_id : str) (file : File) : list Entry :=
  default [] (load file !! user_id).

(** The second definition of the pair, lines 54-69, which is the one the
    module exports. *)
Definition save_history (user_id : str) (entry : Entry) (file : File) : File :=
  let data := load file in
  let '(entries, data) := setdefault user_id [] data in
  let data := <[user_id := entries ++ [entry]]> data in
  save data.

Definition get_history (user_id : str) (file : File) : list Entry :=
  default [] (load file !! user_id).

End HistoryStore.
End history_store.

(** ** services/user_auth_store.py *)

Module user_auth_store.

(** A user record: a JSON object with string values. *)
Abbreviation User := (gmap str str).

(** [storage/users.json]: absent, or a JSON array of user records.
    Reading and writing the file succeed: failures of the file system are
    outside the model. *)
Abbreviation File := (option (list User)).

Definition _load_users (file : File) : list User :=
  match file with
  | None => []
  | Some users => users
  end.

Definition _save_users (users : list User) : File := Some users.

(** [u.get("username") == username and u.get("password") == password] *)
Definition matches (username password : str) (u : User) : bool :=
  bool_decide (u !! lit "username" = Some username)
  && bool_decide (u !! lit "password" = Some password).

Definition check_credentials (username password : str) (file : File)
    : option User :=
  let users := _load_users file in
  snd <$> list_find (λ u, matches username password u = true) users.

Definition create_user (username password full_name : str) (file : File)
    : bool * File :=
  let users := _load_users file in
  if existsb (λ u, bool_decide (u !! lit "username" = Some username)) users
  then (false, file)
  else
    let users :=
      users ++ [ <[lit "username" := username]>
                   (<[lit "password" := password]>
                      {[ lit "full_name" := full_name ]}) ] in
    (true, _save_users users).

(** The usernames on file, in order. *)
Definition usernames (users : list User) : list str :=
  omap (λ u, u !! lit "username") users.

End user_auth_store.

(** ** Test fixtures *)

Module fixtures.

Import api_key_pool memory agents.

(** A stub of the remote service that replays a script of replies, one per
    call, and refuses the connection once the script is used up. *)
Definition scripted : Collaborators := {|
  GROQ_MODEL_NAME := lit "llama-3.3-70b-versatile";
  Error := str;
  Remote := list (str + str);
  complete script _ _ :=
    match script with
    | [] => (inl (lit "connection refused"), [])
    | reply :: rest => (reply, rest)
    end;
  knowledge_base query := lit "KB: " ++ query
|}.

Definition two_keys : KeyPool :=
  mkPool (lit "gsk_A") [lit "gsk_B"] 0 ∅.

(** A pool configured with a single credential. *)
Definition one_key : KeyPool := mkPool (lit "gsk_A") [] 0 ∅.

(** The same pool after both credentials ran out of quota. *)
Definition worn_out : KeyPool :=
  mkPool (lit "gsk_A") [lit "gsk_B"] 1 {[ lit "gsk_A"; lit "gsk_B" ]}.

(** A fresh process talking to a stub that will play [script]. *)
Definition fresh (script : list (@Error scripted + str)) : @World scripted :=
  @mkWorld scripted two_keys [] script [].

(** What the stub raises when a key is out of quota. *)
Definition quota : @Error scripted := lit "429 rate limit reached".

(** Two hundred characters of complaint. *)
Definition long_symptoms : str := replicate 200 97%N.

Definition request : AgentRequest :=
  mkRequest (lit "fever and cough") (lit "Hb 11.2 g/dL")
    (lit "sleep eight hours") (lit "more vegetables").

(** A history file with one user, and a user file with one account. *)
Definition one_history : option (gmap str (list str)) :=
  Some {[ lit "alice" := [lit "run 1"] ]}.

Definition one_user : option (list (gmap str str)) :=
  Some [ <[lit "username" := lit "alice"]>
           (<[lit "password" := lit "s3cret"]>
              {[ lit "full_name" := lit "Alice A" ]}) ].

End fixtures.

(** * Properties *)

(** ** Text *)

Lemma contains_refl (s : str) : contains s s.
Proof. exists [], []. by rewrite app_nil_r. Qed.

Lemma contains_app_r (pre s t : str) : contains s t → contains (pre ++ s) t.
Proof.
  intros (a & b & ->). exists (pre ++ a), b. by rewrite <- app_assoc.
Qed.

Lemma contains_app_l (s post t : str) : contains s t → contains (s ++ post) t.
Proof.
  intros (a & b & ->). exists a, (b ++ post). by rewrite <- !app_assoc.
Qed.

(** Locates a part of a concatenation. *)
Ltac find_part :=
  first [ apply contains_refl
        | solve [apply contains_app_l, contains_refl]
        | apply contains_app_r; find_part ].

(** Evaluates the length of every literal in the goal. *)
Ltac literal_lengths :=
  repeat match goal with
    | |- context [length (lit ?s)] =>
        let n := eval vm_compute in (length (lit s)) in
        change (length (lit s)) with n
    end;
  change (length nl) with 1; change (length nbhy) with 1.

Section PromptLengths.
Import agents.

Lemma symptom_input_length (symptoms report : str) :
  length (symptom_input symptoms report)
  = 41 + length symptoms + length report `min` 120.
Proof.
  unfold symptom_input. rewrite !length_app, length_take.
  literal_lengths. lia.
Qed.

Lemma lifestyle_prompt_length (symptoms report : str) :
  length (lifestyle_prompt symptoms report)
  = 183 + length symptoms + length report.
Proof. unfold lifestyle_prompt. rewrite !length_app. literal_lengths. lia. Qed.

Lemma diet_prompt_length (symptoms report lifestyle_notes kb : str) :
  length (diet_prompt symptoms report lifestyle_notes kb)
  = 295 + length symptoms + length report + length lifestyle_notes
    + length kb.
Proof. unfold diet_prompt. rewrite !length_app. literal_lengths. lia. Qed.

Lemma fitness_prompt_length (symptoms diet_notes : str) :
  length (fitness_prompt symptoms diet_notes)
  = 257 + length symptoms + length diet_notes.
Proof. unfold fitness_prompt. rewrite !length_app. literal_lengths. lia. Qed.

End PromptLengths.

(** ** The key pool *)

Section KeyPoolProperties.
Import api_key_pool.

Lemma get_next_key_exhausted (p : KeyPool) :
  exhausted (api_key_pool.get_next_key p).2 = exhausted p.
Proof.
  unfold api_key_pool.get_next_key.
  destruct (list_find _ _) as [[i k]|]; reflexivity.
Qed.

Lemma get_next_key_keys (p : KeyPool) :
  keys (api_key_pool.get_next_key p).2 = keys p.
Proof.
  unfold api_key_pool.get_next_key.
  destruct (list_find _ _) as [[i k]|]; reflexivity.
Qed.

(** Whatever is handed out is one of the pool's credentials. *)
Lemma get_next_key_in_pool (p : KeyPool) :
  (api_key_pool.get_next_key p).1 ∈ keys p.
Proof.
  unfold api_key_pool.get_next_key.
  destruct (list_find _ _) as [[i k]|] eqn:Hfind; cbn [fst].
  - apply list_find_Some in Hfind as (Hi & _ & _).
    apply (elem_of_rotate (keys p) (cursor p)).
    by eapply list_elem_of_lookup_2.
  - destruct (keys p !! _) as [k|] eqn:Hk; cbn [default].
    + by eapply list_elem_of_lookup_2.
    + unfold keys. left.
Qed.

(** With a credential available, the one handed out is available. *)
Lemma get_next_key_available (p : KeyPool) (k : Credential) :
  k ∈ keys p → available p k →
  available p (api_key_pool.get_next_key p).1.
Proof.
  intros Hin Hav. unfold api_key_pool.get_next_key.
  destruct (list_find _ _) as [[i k']|] eqn:Hfind; cbn [fst].
  - by apply list_find_Some in Hfind as (_ & ? & _).
  - exfalso. eapply list_find_None, Forall_forall in Hfind; [by apply Hfind|].
    by apply elem_of_rotate.
Qed.

Lemma do_calls_keys (cs : list call) (p : KeyPool) :
  keys (do_calls cs p) = keys p.
Proof.
  revert p. induction cs as [|c cs IH]; intros p; [done|].
  change (keys (do_calls cs (do_call c p)) = keys p).
  rewrite IH. destruct c; [apply get_next_key_keys | done].
Qed.

(** Exhaustion is never undone. *)
Lemma do_calls_exhausted (cs : list call) (p : KeyPool) :
  exhausted p ⊆ exhausted (do_calls cs p).
Proof.
  revert p. induction cs as [|c cs IH]; intros p; [done|].
  change (exhausted p ⊆ exhausted (do_calls cs (do_call c p))).
  etrans; [|apply IH]. destruct c; cbn.
  - by rewrite get_next_key_exhausted.
  - set_solver.
Qed.

(** With every credential available, the one under the cursor is handed
    out and the cursor moves on by one. *)
Lemma get_next_key_round_robin (p : KeyPool) :
  (∀ k, k ∈ keys p → available p k) →
  keys p !! (cursor p mod length (keys p))
  = Some (api_key_pool.get_next_key p).1
  ∧ cursor (api_key_pool.get_next_key p).2
    = (cursor p + 1) mod length (keys p).
Proof.
  intros Hall. unfold api_key_pool.get_next_key.
  assert (cursor p mod length (keys p) < length (keys p)) as Hlt.
  { apply Nat.mod_upper_bound. unfold keys. cbn [length]. lia. }
  destruct (list_find _ _) as [[i k]|] eqn:Hfind; cbn [fst snd cursor set_cursor].
  - apply list_find_Some in Hfind as (Hi & _ & Hfirst).
    destruct i as [|i].
    + rewrite Nat.add_0_r. split; [|done].
      rewrite <- Hi. unfold rotate.
      rewrite lookup_app_l by (rewrite length_drop; lia).
      by rewrite lookup_drop, Nat.add_0_r.
    + destruct (lookup_lt_is_Some_2 (rotate (cursor p) (keys p)) 0)
        as [k0 Hk0]; [rewrite length_rotate; lia|].
      destruct (Hfirst 0 k0 Hk0); [lia|].
      apply Hall, (elem_of_rotate (keys p) (cursor p)).
      by eapply list_elem_of_lookup_2.
  - exfalso. apply list_find_None in Hfind.
    destruct (lookup_lt_is_Some_2 (rotate (cursor p) (keys p)) 0)
      as [k0 Hk0]; [rewrite length_rotate; lia|].
    eapply Forall_lookup_1 in Hfind; [|exact Hk0].
    apply Hfind, Hall, (elem_of_rotate (keys p) (cursor p)).
    by eapply list_elem_of_lookup_2.
Qed.

(** Three credentials, three calls, starting at the second credential:
    every credential is handed out exactly once, in rotation order. *)
Example round_robin_of_three :
  draw 3 (mkPool (lit "gsk_A") [lit "gsk_B"; lit "gsk_C"] 1 ∅)
  = [lit "gsk_B"; lit "gsk_C"; lit "gsk_A"].
Proof. by vm_compute. Qed.

(** In degraded mode the credential under the cursor is handed out. *)
Lemma get_next_key_degraded (p : KeyPool) :
  (∀ k, k ∈ keys p → ¬ available p k) →
  keys p !! (cursor p mod length (keys p))
  = Some (api_key_pool.get_next_key p).1.
Proof.
  intros Hnone. unfold api_key_pool.get_next_key.
  destruct (list_find _ _) as [[i k]|] eqn:Hfind; cbn [fst].
  - apply list_find_Some in Hfind as (Hi & Hav & _).
    destruct (Hnone k); [|done].
    apply (elem_of_rotate (keys p) (cursor p)).
    by eapply list_elem_of_lookup_2.
  - destruct (lookup_lt_is_Some_2 (keys p) (cursor p mod length (keys p)))
      as [k Hk]; [|by rewrite Hk].
    apply Nat.mod_upper_bound. unfold keys. cbn [length]. lia.
Qed.

(** C7.  In every state of the Key Pool: [next()] does not return a
    credential currently marked exhausted while some credential of the pool
    is available; once [mark_exhausted(c)] has been called, then after any
    further calls on the pool [next()] does not return [c] as long as a
    credential remains available; and when all credentials are marked
    exhausted [next()] still returns a credential of the pool, the one
    under the cursor (degraded mode), and the pool keeps its credentials. *)
Theorem key_pool_exhaustion_skip (p : KeyPool) :
  ((∃ k, k ∈ keys p ∧ available p k) →
     available p (api_key_pool.get_next_key p).1)
  ∧ (∀ c cs,
       let q := do_calls cs (api_key_pool.mark_key_quota_exceeded c p) in
       (∃ k, k ∈ keys q ∧ available q k) →
       (api_key_pool.get_next_key q).1 ≠ c)
  ∧ ((∀ k, k ∈ keys p → ¬ available p k) →
       (api_key_pool.get_next_key p).1 ∈ keys p
       ∧ keys p !! (cursor p mod length (keys p))
         = Some (api_key_pool.get_next_key p).1
       ∧ keys (api_key_pool.get_next_key p).2 = keys p).
Proof.
  split; [|split].
  - intros (k & Hin & Hav). exact (get_next_key_available p k Hin Hav).
  - intros c cs q (k & Hin & Hav) Heq.
    assert (Hc : c ∈ exhausted q).
    { apply (do_calls_exhausted cs). cbn.
      apply elem_of_union. left. by apply elem_of_singleton. }
    pose proof (get_next_key_available q k Hin Hav) as Hnext.
    unfold available in Hnext. by rewrite Heq in Hnext.
  - intros Hnone. split; [apply get_next_key_in_pool|].
    split; [by apply get_next_key_degraded | apply get_next_key_keys].
Qed.

Lemma key_pool_exhaustion_skip_witness :
  available fixtures.two_keys (api_key_pool.get_next_key fixtures.two_keys).1
  ∧ (api_key_pool.get_next_key
       (do_calls [Next; Next]
          (api_key_pool.mark_key_quota_exceeded (lit "gsk_A")
             fixtures.two_keys))).1 ≠ lit "gsk_A"
  ∧ (api_key_pool.get_next_key fixtures.worn_out).1 = lit "gsk_B".
Proof.
  split; [|split].
  - apply (key_pool_exhaustion_skip fixtures.two_keys).
    exists (lit "gsk_A"). split; [by left|].
    unfold available. apply (bool_decide_unpack _). by vm_compute.
  - apply (key_pool_exhaustion_skip fixtures.two_keys).
    exists (lit "gsk_B"). split.
    + rewrite do_calls_keys. right. by left.
    + unfold available. apply (bool_decide_unpack _). by vm_compute.
  - destruct (key_pool_exhaustion_skip fixtures.worn_out)
      as (_ & _ & Hdegraded).
    destruct Hdegraded as (_ & Hcursor & _).
    + unfold available. apply Forall_forall, (bool_decide_unpack _).
      by vm_compute.
    + change (Some (lit "gsk_B")
              = Some (api_key_pool.get_next_key fixtures.worn_out).1)
        in Hcursor.
      congruence.
Defined.

End KeyPoolProperties.

(** ** The agents *)

Section AgentProperties.
Import api_key_pool memory agents.
Context `{Collaborators}.

Local Abbreviation composed v req w :=
  ([SystemMessage (system_instruction v)] ++ chat_history (shared_memory w)
   ++ [HumanMessage
         (task_message v req (knowledge_base (req_symptoms req)))]).
Local Abbreviation fetched v req := (KnowledgeFetch <$> knowledge_queries v req).
Local Abbreviation turn_of v req text :=
  (mkTurn (recorded_input v req (knowledge_base (req_symptoms req))) text).
Local Abbreviation handle k := (mkLLM GROQ_MODEL_NAME k groq_url).

(** One invocation, step by step: the messages are composed from the
    history read on entry, a key is drawn, the remote is called, and a
    failed call is followed by exactly one more, on a newly drawn key. *)
Lemma invoke_cases (v : Variant) (req : AgentRequest) (w : World) :
  ∃ k1 q1 reply1 r1,
    api_key_pool.get_next_key (key_pool w) = (k1, q1)
    ∧ complete (remote w) (handle k1) (composed v req w) = (reply1, r1)
    ∧ match reply1 with
      | inr text =>
          invoke v req w =
            (Returned text,
             mkWorld q1 (shared_memory w ++ [turn_of v req text]) r1
               (journal w ++ fetched v req
                ++ [KeyHandedOut k1;
                    RemoteCall (handle k1) (composed v req w) (inr text)]))
      | inl e1 =>
          ∃ k2 q2 reply2 r2,
            api_key_pool.get_next_key
              (api_key_pool.mark_key_quota_exceeded k1 q1) = (k2, q2)
            ∧ complete r1 (handle k2) (composed v req w) = (reply2, r2)
            ∧ invoke v req w =
                (match reply2 with
                 | inr text => Returned text
                 | inl e2 => Raised e2
                 end,
                 mkWorld q2
                   match reply2 with
                   | inr text => shared_memory w ++ [turn_of v req text]
                   | inl _ => shared_memory w
                   end
                   r2
                   (journal w ++ fetched v req
                    ++ [KeyHandedOut k1;
                        RemoteCall (handle k1) (composed v req w) (inl e1);
                        KeyMarkedExhausted k1; KeyHandedOut k2;
                        RemoteCall (handle k2) (composed v req w) reply2]))
      end.
Proof.
  destruct (api_key_pool.get_next_key (key_pool w)) as [k1 q1] eqn:Hk1.
  destruct (complete (remote w) (handle k1) (composed v req w))
    as [reply1 r1] eqn:Hc1.
  exists k1, q1, reply1, r1. split; [done|]. split; [done|].
  destruct reply1 as [e1|text].
  - destruct (api_key_pool.get_next_key
                (api_key_pool.mark_key_quota_exceeded k1 q1))
      as [k2 q2] eqn:Hk2.
    destruct (complete r1 (handle k2) (composed v req w))
      as [reply2 r2] eqn:Hc2.
    exists k2, q2, reply2, r2. split; [done|]. split; [done|].
    destruct v; cbn [invoke system_instruction task_message recorded_input
                     knowledge_queries fmap list_fmap] in *;
      unfold symptom_agent, lifestyle_agent, diet_agent, fitness_agent,
        _make_llm_with_key, try_except, ainvoke, save_context, retrieve_context,
        agents.get_next_key, agents.mark_key_quota_exceeded,
        load_memory_variables, append_turn, log;
      unfold mbind, mret, M_bind, M_ret;
      cbn [key_pool shared_memory remote journal];
      rewrite Hk1; cbn [key_pool shared_memory remote journal];
      rewrite Hc1; cbn [key_pool shared_memory remote journal];
      rewrite Hk2; cbn [key_pool shared_memory remote journal];
      rewrite Hc2; cbn [key_pool shared_memory remote journal];
      destruct reply2; rewrite <- ?app_assoc; reflexivity.
  - destruct v; cbn [invoke system_instruction task_message recorded_input
                     knowledge_queries fmap list_fmap] in *;
      unfold symptom_agent, lifestyle_agent, diet_agent, fitness_agent,
        _make_llm_with_key, try_except, ainvoke, save_context, retrieve_context,
        agents.get_next_key, agents.mark_key_quota_exceeded,
        load_memory_variables, append_turn, log;
      unfold mbind, mret, M_bind, M_ret;
      cbn [key_pool shared_memory remote journal];
      rewrite Hk1; cbn [key_pool shared_memory remote journal];
      rewrite Hc1; cbn [key_pool shared_memory remote journal];
      rewrite <- ?app_assoc; reflexivity.
Qed.

Lemma events_since_app (w : World) p m r (evs : list Event) :
  events_since w (mkWorld p m r (journal w ++ evs)) = evs.
Proof. unfold events_since. cbn [journal]. apply drop_app_length. Qed.

(** Knowledge fetches are neither remote calls nor pool calls. *)
Lemma remote_calls_fetches (qs : list str) (evs : list Event) :
  remote_calls ((KnowledgeFetch <$> qs) ++ evs) = remote_calls evs.
Proof. induction qs as [|q qs IH]; [done|]. exact IH. Qed.

Lemma marked_exhausted_fetches (qs : list str) (evs : list Event) :
  marked_exhausted ((KnowledgeFetch <$> qs) ++ evs) = marked_exhausted evs.
Proof. induction qs as [|q qs IH]; [done|]. exact IH. Qed.

Lemma knowledge_fetches_fetches (qs : list str) (evs : list Event) :
  knowledge_fetches ((KnowledgeFetch <$> qs) ++ evs)
  = qs ++ knowledge_fetches evs.
Proof. induction qs as [|q qs IH]; [done|]. cbn. f_equal. exact IH. Qed.

(** Drawing a key changes the cursor only. *)
Lemma drawn_exhausted (p q : KeyPool) (k : Credential) :
  api_key_pool.get_next_key p = (k, q) → exhausted q = exhausted p.
Proof. intros Hk. by rewrite <- (get_next_key_exhausted p), Hk. Qed.


(** Splits a run into its three courses: answered at once, answered on
    the retry, failed twice. *)
Ltac by_course v req w Hrun :=
  let k1 := fresh "k1" in let q1 := fresh "q1" in
  let reply1 := fresh "reply1" in let r1 := fresh "r1" in
  let Hk1 := fresh "Hk1" in let Hc1 := fresh "Hc1" in
  let Hcase := fresh "Hcase" in
  let k2 := fresh "k2" in let q2 := fresh "q2" in
  let reply2 := fresh "reply2" in let r2 := fresh "r2" in
  let Hk2 := fresh "Hk2" in let Hc2 := fresh "Hc2" in
  destruct (invoke_cases v req w)
    as (k1 & q1 & reply1 & r1 & Hk1 & Hc1 & Hcase);
  destruct reply1 as [?e|?text];
  [ destruct Hcase as (k2 & q2 & reply2 & r2 & Hk2 & Hc2 & Hcase);
    destruct reply2 as [?e|?text] |];
  rewrite Hcase in Hrun; injection Hrun as <- <-;
  rewrite ?events_since_app, ?remote_calls_fetches, ?marked_exhausted_fetches,
    ?knowledge_fetches_fetches in *;
  cbn [key_pool shared_memory remote journal remote_calls marked_exhausted
       knowledge_fetches mbind list_bind app fmap list_fmap snd
       lookup list_lookup] in *.

(** C1, as the code has it.  For every agent variant, when the remote call
    fails on the first attempt and on the retry, the invocation raises the
    second failure, exactly two remote calls were made, exactly one
    credential was marked exhausted in the key pool, namely the one used
    for the first attempt (so the credential used for the retry is marked
    only when it is that same credential), and no turn was appended to
    Shared Memory. *)
Theorem retry_exhaustion (v : Variant) (req : AgentRequest)
    (w w' : World) (out : Outcome str) (e1 e2 : Error) :
  invoke v req w = (out, w') →
  (remote_calls (events_since w w')).*2 !! 0 = Some (inl e1) →
  (remote_calls (events_since w w')).*2 !! 1 = Some (inl e2) →
  out = Raised e2
  ∧ (∃ llm1 llm2 ms,
       remote_calls (events_since w w')
       = [(llm1, ms, inl e1); (llm2, ms, inl e2)]
       ∧ marked_exhausted (events_since w w') = [api_key llm1]
       ∧ exhausted (key_pool w') = {[ api_key llm1 ]} ∪ exhausted (key_pool w)
       ∧ (api_key llm2 ∈ marked_exhausted (events_since w w') →
            api_key llm2 = api_key llm1)
       ∧ (api_key llm2 ∈ exhausted (key_pool w') →
            api_key llm2 = api_key llm1
            ∨ api_key llm2 ∈ exhausted (key_pool w)))
  ∧ shared_memory w' = shared_memory w.
Proof.
  intros Hrun H0 H1. by_course v req w Hrun; simplify_eq.
  split; [done|]. split; [|done].
  assert (exhausted q2 = {[ k1 ]} ∪ exhausted (key_pool w)) as Hpool.
  { rewrite (drawn_exhausted _ _ _ Hk2).
    unfold api_key_pool.mark_key_quota_exceeded. cbn [exhausted].
    by rewrite (drawn_exhausted _ _ _ Hk1). }
  eexists _, _, _. split; [reflexivity|]. split; [reflexivity|].
  cbn [api_key]. split; [exact Hpool|]. split.
  - by intros ->%list_elem_of_singleton.
  - rewrite Hpool. intros [->%elem_of_singleton|Hold]%elem_of_union; auto.
Qed.


(** C2.  For every agent variant, when the remote call fails on the first
    attempt and succeeds on the second, the invocation returns the second
    attempt's text, exactly two remote calls were made, exactly one
    credential was marked exhausted, namely the one used for the first
    attempt, and exactly one turn, carrying that text, was appended to
    Shared Memory. *)
Theorem retry_once_bound (v : Variant) (req : AgentRequest)
    (w w' : World) (out : Outcome str) (e1 : Error) (text : str) :
  invoke v req w = (out, w') →
  (remote_calls (events_since w w')).*2 !! 0 = Some (inl e1) →
  (remote_calls (events_since w w')).*2 !! 1 = Some (inr text) →
  out = Returned text
  ∧ (∃ llm1 llm2 ms,
       remote_calls (events_since w w')
       = [(llm1, ms, inl e1); (llm2, ms, inr text)]
       ∧ marked_exhausted (events_since w w') = [api_key llm1]
       ∧ exhausted (key_pool w') = {[ api_key llm1 ]} ∪ exhausted (key_pool w))
  ∧ (∃ input,
       shared_memory w' = shared_memory w ++ [mkTurn input text]).
Proof.
  intros Hrun H0 H1. by_course v req w Hrun; simplify_eq.
  split; [done|]. split; [|by eexists].
  eexists _, _, _. split; [reflexivity|]. split; [reflexivity|].
  cbn [api_key]. rewrite (drawn_exhausted _ _ _ Hk2).
  unfold api_key_pool.mark_key_quota_exceeded. cbn [exhausted].
  by rewrite (drawn_exhausted _ _ _ Hk1).
Qed.

(** What an invocation does to Shared Memory. *)
Lemma invoke_memory (v : Variant) (req : AgentRequest)
    (w w' : World) (out : Outcome str) :
  invoke v req w = (out, w') →
  shared_memory w'
  = match out with
    | Returned text => shared_memory w ++ [turn_of v req text]
    | Raised _ => shared_memory w
    end.
Proof. intros Hrun. by by_course v req w Hrun. Qed.

(** C3.  Every invocation, whatever the remote client answers, appends
    exactly one turn to Shared Memory when it returns and none when it
    raises, and keeps the turns already there in place; so after Symptom,
    Lifestyle and Diet have returned in sequence, Shared Memory holds the
    earlier turns followed by exactly their three turns in that order. *)
Theorem history_append_only :
  (∀ (v : Variant) (req : AgentRequest) (w w' : World) (out : Outcome str),
     invoke v req w = (out, w') →
     match out with
     | Returned text =>
         ∃ input, shared_memory w' = shared_memory w ++ [mkTurn input text]
     | Raised _ => shared_memory w' = shared_memory w
     end
     ∧ shared_memory w `prefix_of` shared_memory w')
  ∧ (∀ (s1 r1 s2 r2 s3 r3 notes t1 t2 t3 : str) (w0 w1 w2 w3 : World),
       symptom_agent s1 r1 w0 = (Returned t1, w1) →
       lifestyle_agent s2 r2 w1 = (Returned t2, w2) →
       diet_agent s3 r3 notes w2 = (Returned t3, w3) →
       shared_memory w3
       = shared_memory w0
         ++ [mkTurn (symptom_input s1 r1) t1;
             mkTurn (lit "[lifestyle_agent] "
                     ++ take 160 (lifestyle_prompt s2 r2)) t2;
             mkTurn (lit "[diet_agent] "
                     ++ take 160 (diet_prompt s3 r3 notes
                                    (knowledge_base s3))) t3]
       ∧ length (shared_memory w3) = length (shared_memory w0) + 3).
Proof.
  split.
  - intros v req w w' out Hrun. rewrite (invoke_memory _ _ _ _ _ Hrun).
    destruct out as [text|e]; [|done].
    split; [by eexists | by apply prefix_app_r].
  - intros s1 r1 s2 r2 s3 r3 notes t1 t2 t3 w0 w1 w2 w3 H1 H2 H3.
    apply (invoke_memory Symptom (mkRequest s1 r1 [] [])) in H1.
    apply (invoke_memory Lifestyle (mkRequest s2 r2 [] [])) in H2.
    apply (invoke_memory Diet (mkRequest s3 r3 notes [])) in H3.
    cbn [recorded_input task_message req_symptoms req_report
         req_lifestyle_notes] in H1, H2, H3.
    rewrite H3, H2, H1, <- !app_assoc. split; [done|].
    rewrite !length_app. cbn [length]. lia.
Qed.


(** What an invocation sends to its collaborators. *)
Lemma invoke_calls (v : Variant) (req : AgentRequest)
    (w w' : World) (out : Outcome str) :
  invoke v req w = (out, w') →
  remote_calls (events_since w w') ≠ []
  ∧ Forall (λ call, call.1.2 = composed v req w)
      (remote_calls (events_since w w'))
  ∧ knowledge_fetches (events_since w w') = knowledge_queries v req.
Proof.
  intros Hrun. by_course v req w Hrun.
  all: split; [done|]. all: split; [|by rewrite app_nil_r].
  all: by repeat constructor.
Qed.

Lemma recorded_input_length (v : Variant) (req : AgentRequest) (kb : str) :
  length (recorded_input v req kb)
  = match v with
    | Symptom =>
        41 + length (req_symptoms req) + length (req_report req) `min` 120
    | Lifestyle => 18 + 160
    | Diet => 13 + 160
    | Fitness => 16 + 160
    end.
Proof.
  destruct v; cbn [recorded_input task_message].
  - apply symptom_input_length.
  - rewrite length_app, length_take, lifestyle_prompt_length.
    literal_lengths. lia.
  - rewrite length_app, length_take, diet_prompt_length.
    literal_lengths. lia.
  - rewrite length_app, length_take, fitness_prompt_length.
    literal_lengths. lia.
Qed.

(** C4, as the code has it.  For every agent variant and every input
    text, the turn recorded on success carries the full result text as its
    output, whatever its length.  Its input is the variant's label followed
    by truncated request text: for Lifestyle, Diet and Fitness the label
    and the first 160 characters of the task message, 178, 173 and 176
    characters in all; for Symptom the label, the symptoms text in full
    and the first 120 characters of the report, so that only the report
    part is bounded. *)
Theorem truncation_bound (v : Variant) (req : AgentRequest)
    (w w' : World) (text : str) :
  invoke v req w = (Returned text, w') →
  ∃ t, shared_memory w' = shared_memory w ++ [t]
       ∧ turn_output t = text
       ∧ turn_input t
         = match v with
           | Symptom =>
               lit "[symptom_agent] symptoms=" ++ req_symptoms req
               ++ lit " report_snippet=" ++ take 120 (req_report req)
           | Lifestyle =>
               lit "[lifestyle_agent] "
               ++ take 160 (lifestyle_prompt (req_symptoms req)
                              (req_report req))
           | Diet =>
               lit "[diet_agent] "
               ++ take 160 (diet_prompt (req_symptoms req) (req_report req)
                              (req_lifestyle_notes req)
                              (knowledge_base (req_symptoms req)))
           | Fitness =>
               lit "[fitness_agent] "
               ++ take 160 (fitness_prompt (req_symptoms req)
                              (req_diet_notes req))
           end
       ∧ length (turn_input t)
         = match v with
           | Symptom =>
               41 + length (req_symptoms req)
               + length (req_report req) `min` 120
           | Lifestyle => 178
           | Diet => 173
           | Fitness => 176
           end.
Proof.
  intros Hrun. apply invoke_memory in Hrun.
  eexists. split; [exact Hrun|]. split; [done|]. cbn [turn_input]. split.
  - by destruct v.
  - rewrite recorded_input_length. by destruct v.
Qed.

(** C5.  Whatever [lifestyle_notes] the Diet agent is given, the task
    message of every request it sends to the remote model contains that
    string literally; and whatever [diet_notes] the Fitness agent is given,
    the task message of every request it sends contains that string
    literally.  Each agent sends at least one request. *)
Theorem chaining_contract :
  (∀ (symptoms report lifestyle_notes : str) (w w' : World) out,
     diet_agent symptoms report lifestyle_notes w = (out, w') →
     remote_calls (events_since w w') ≠ []
     ∧ ∀ llm messages reply,
         (llm, messages, reply) ∈ remote_calls (events_since w w') →
         ∃ task, last messages = Some (HumanMessage task)
                 ∧ contains task lifestyle_notes)
  ∧ (∀ (symptoms diet_notes : str) (w w' : World) out,
       fitness_agent symptoms diet_notes w = (out, w') →
       remote_calls (events_since w w') ≠ []
       ∧ ∀ llm messages reply,
           (llm, messages, reply) ∈ remote_calls (events_since w w') →
           ∃ task, last messages = Some (HumanMessage task)
                   ∧ contains task diet_notes).
Proof.
  split.
  - intros symptoms report lifestyle_notes w w' out Hrun.
    apply (invoke_calls Diet (mkRequest symptoms report lifestyle_notes []))
      in Hrun as (Hsome & Hall & _).
    split; [done|]. intros llm messages reply Hin.
    eapply Forall_forall in Hall; [|exact Hin]. cbn [fst snd] in Hall.
    subst messages. eexists. split.
    { rewrite app_assoc. apply last_snoc. }
    cbn [task_message req_symptoms req_report req_lifestyle_notes].
    unfold diet_prompt. find_part.
  - intros symptoms diet_notes w w' out Hrun.
    apply (invoke_calls Fitness (mkRequest symptoms [] [] diet_notes))
      in Hrun as (Hsome & Hall & _).
    split; [done|]. intros llm messages reply Hin.
    eapply Forall_forall in Hall; [|exact Hin]. cbn [fst snd] in Hall.
    subst messages. eexists. split.
    { rewrite app_assoc. apply last_snoc. }
    cbn [task_message req_symptoms req_diet_notes].
    unfold fitness_prompt. find_part.
Qed.


(** C6.  For every agent variant, the message list of every request the
    invocation sends is exactly: the variant's static system instruction,
    then the Shared Memory history as it stood on entry, in order, then one
    task message built from the request's fields, each text being the one
    written out below.  The Diet variant alone queries the knowledge base,
    once, with the symptom text, and its task message includes what the
    retriever returned; the other variants make no query and their task
    message does not depend on the retriever.  The task message contains
    every field its variant consumes: the symptoms always, the report for
    Symptom, Lifestyle and Diet, the lifestyle notes for Diet and the diet
    notes for Fitness. *)
Theorem message_composition (v : Variant) (req : AgentRequest)
    (w w' : World) (out : Outcome str) :
  invoke v req w = (out, w') →
  let kb := knowledge_base (req_symptoms req) in
  let system :=
    match v with
    | Symptom =>
        lit "You are a safe medical triage assistant. "
        ++ lit "You only assess severity and suggest if the user should see a doctor. "
        ++ lit "Do not provide diagnoses or prescriptions." ++ nl ++ nl
        ++ lit "You may consider structured information from a lab/medical report "
        ++ lit "if it is provided, but still MUST NOT diagnose or prescribe."
    | Lifestyle =>
        lit "You are a lifestyle coach collaborating with other agents. "
        ++ lit "Suggest simple lifestyle habits, sleep hygiene, stress management, "
        ++ lit "and daily routine tips. Keep suggestions safe and generic."
        ++ nl ++ nl
        ++ lit "If lab values or diagnoses are mentioned in the report, you may "
        ++ lit "reference them in very general language (for example 'elevated "
        ++ lit "blood sugar'), but do NOT add new diagnoses or change treatment."
    | Diet =>
        lit "You are a dietician collaborating with other agents to give general diet guidance. "
        ++ lit "Never claim to cure diseases or override a doctor's advice. "
        ++ lit "Do not name prescription medicines or doses."
    | Fitness =>
        lit "You are a cautious fitness coach. "
        ++ lit "You design simple, low" ++ nbhy
        ++ lit "intensity plans that are generally safe. "
        ++ lit "Always recommend consulting a doctor before heavy exercise."
    end in
  let task :=
    match v with
    | Symptom =>
        lit "Analyze these symptoms and their possible severity." ++ nl ++ nl
        ++ lit "Symptoms:" ++ nl ++ req_symptoms req ++ nl ++ nl
        ++ lit "Medical report text (may be empty):" ++ nl ++ req_report req
    | Lifestyle =>
        lit "Given the conversation so far, the user's symptoms, and any available "
        ++ lit "medical report text, suggest lifestyle changes and constraints."
        ++ nl ++ nl
        ++ lit "Symptoms:" ++ nl ++ req_symptoms req ++ nl ++ nl
        ++ lit "Medical report text (may be empty):" ++ nl ++ req_report req
    | Diet =>
        lit "User symptoms:" ++ nl ++ req_symptoms req ++ nl ++ nl
        ++ lit "Relevant medical report text (may be empty):" ++ nl
        ++ req_report req ++ nl ++ nl
        ++ lit "Lifestyle information from lifestyle_agent:" ++ nl
        ++ req_lifestyle_notes req ++ nl ++ nl
        ++ lit "Evidence / knowledge base snippets:" ++ nl ++ kb ++ nl ++ nl
        ++ lit "Suggest a safe, balanced diet plan. Mention foods to prefer and foods to avoid. "
        ++ lit "Highlight that this is not a replacement for a dietician or doctor."
    | Fitness =>
        lit "User symptoms:" ++ nl ++ req_symptoms req ++ nl ++ nl
        ++ lit "Diet constraints from diet_agent:" ++ nl
        ++ req_diet_notes req ++ nl ++ nl
        ++ lit "Recommend only low" ++ nbhy
        ++ lit "risk, gentle physical activities, and clearly tell the "
        ++ lit "user to stop if they feel pain or discomfort. Always remind them to talk "
        ++ lit "to their doctor before starting or intensifying exercise."
    end in
  remote_calls (events_since w w') ≠ []
  ∧ (∀ llm messages reply,
       (llm, messages, reply) ∈ remote_calls (events_since w w') →
       messages
       = [SystemMessage system] ++ chat_history (shared_memory w)
         ++ [HumanMessage task])
  ∧ knowledge_fetches (events_since w w')
    = match v with Diet => [req_symptoms req] | _ => [] end
  ∧ match v with
    | Diet => contains task kb
    | _ => ∀ other, task_message v req other = task
    end
  ∧ system = system_instruction v
  ∧ task = task_message v req kb
  ∧ contains task (req_symptoms req)
  ∧ match v with
    | Symptom | Lifestyle => contains task (req_report req)
    | Diet =>
        contains task (req_report req)
        ∧ contains task (req_lifestyle_notes req)
    | Fitness => contains task (req_diet_notes req)
    end.
Proof.
  intros Hrun kb system task.
  apply invoke_calls in Hrun as (Hsome & Hall & Hkb).
  assert (system = system_instruction v) as Hsystem by (by destruct v).
  assert (task = task_message v req kb) as Htask by (by destruct v).
  split; [done|]. split; [|split; [|split; [|split; [|split; [|split]]]]].
  - intros llm messages reply Hin.
    eapply Forall_forall in Hall; [|exact Hin]. cbn [fst snd] in Hall.
    by rewrite Hsystem, Htask.
  - rewrite Hkb. by destruct v.
  - destruct v; try done. unfold task. find_part.
  - exact Hsystem.
  - exact Htask.
  - destruct v; unfold task; find_part.
  - destruct v; unfold task; try split; find_part.
Qed.

(** ** Further properties of the agents *)

(** X1.  When the first attempt is answered, the invocation returns that
    answer after a single remote call: nothing is retried, no credential
    is marked exhausted, and one turn carrying the answer is appended. *)
Theorem first_attempt_success (v : Variant) (req : AgentRequest)
    (w w' : World) (out : Outcome str) (text : str) :
  invoke v req w = (out, w') →
  (remote_calls (events_since w w')).*2 !! 0 = Some (inr text) →
  out = Returned text
  ∧ (remote_calls (events_since w w')).*2 = [inr text]
  ∧ marked_exhausted (events_since w w') = []
  ∧ exhausted (key_pool w') = exhausted (key_pool w)
  ∧ (∃ input, shared_memory w' = shared_memory w ++ [mkTurn input text]).
Proof.
  intros Hrun H0. by_course v req w Hrun; simplify_eq.
  split; [done|]. split; [done|]. split; [done|].
  split; [apply (drawn_exhausted _ _ _ Hk1) | by eexists].
Qed.

(** X2.  Whatever the remote answers, an invocation makes one or two
    remote calls, never more; it marks one credential fewer than it makes
    calls; and a credential is marked only when it is the one of the first
    call and that call failed. *)
Theorem attempt_budget (v : Variant) (req : AgentRequest)
    (w w' : World) (out : Outcome str) :
  invoke v req w = (out, w') →
  1 ≤ length (remote_calls (events_since w w')) ≤ 2
  ∧ length (marked_exhausted (events_since w w')) + 1
    = length (remote_calls (events_since w w'))
  ∧ (∀ k, k ∈ marked_exhausted (events_since w w') →
       ∃ llm ms e,
         remote_calls (events_since w w') !! 0 = Some (llm, ms, inl e)
         ∧ api_key llm = k).
Proof.
  intros Hrun. by_course v req w Hrun; cbn [length].
  all: split; [lia|]. all: split; [done|].
  all: intros k Hk; try by apply elem_of_nil in Hk.
  all: apply list_elem_of_singleton in Hk as ->; by eexists _, _, _.
Qed.

(** X3.  Every remote call goes through a handle made by
    [_make_llm_with_key]: it names the configured model and the Groq
    endpoint, and the credentials of the calls are exactly the credentials
    the pool handed out during the invocation, in order; the first is the
    pool's next key on entry. *)
Theorem handles_use_drawn_keys (v : Variant) (req : AgentRequest)
    (w w' : World) (out : Outcome str) :
  invoke v req w = (out, w') →
  (λ call, api_key call.1.1) <$> remote_calls (events_since w w')
  = keys_handed_out (events_since w w')
  ∧ head (keys_handed_out (events_since w w'))
    = Some (api_key_pool.get_next_key (key_pool w)).1
  ∧ Forall (λ call, model call.1.1 = GROQ_MODEL_NAME
                    ∧ base_url call.1.1 = groq_url)
      (remote_calls (events_since w w')).
Proof.
  intros Hrun.
  assert (∀ qs evs, keys_handed_out ((KnowledgeFetch <$> qs) ++ evs)
                    = keys_handed_out evs) as Hskip.
  { intros qs evs. induction qs as [|q qs IH]; [done | exact IH]. }
  by_course v req w Hrun; rewrite Hskip, Hk1;
    cbn [keys_handed_out mbind list_bind app fmap list_fmap fst snd api_key
         head].
  all: split; [done|]. all: split; [done|]. all: by repeat constructor.
Qed.

(** X4.  The outcome of an invocation is the reply to its last remote
    call: it returns the text of a last call that was answered and raises
    the failure of a last call that failed. *)
Theorem outcome_is_last_reply (v : Variant) (req : AgentRequest)
    (w w' : World) (out : Outcome str) :
  invoke v req w = (out, w') →
  last (remote_calls (events_since w w')).*2
  = Some match out with
         | Returned text => inr text
         | Raised e => inl e
         end.
Proof. intros Hrun. by by_course v req w Hrun. Qed.

Lemma chat_history_app (turns more : list ConversationTurn) :
  chat_history (turns ++ more) = chat_history turns ++ chat_history more.
Proof. apply bind_app. Qed.

(** X5.  An agent invoked after another one has returned sees that one's
    turn: every request it sends carries, between the history the first
    agent started from and its own task message, the first agent's recorded
    input as a human message followed by the first agent's answer as an
    AI message. *)
Theorem later_agent_sees_earlier_turn (v1 v2 : Variant)
    (req1 req2 : AgentRequest) (w0 w1 w2 : World) (t1 : str)
    (out : Outcome str) :
  invoke v1 req1 w0 = (Returned t1, w1) →
  invoke v2 req2 w1 = (out, w2) →
  remote_calls (events_since w1 w2) ≠ []
  ∧ ∀ llm messages reply,
      (llm, messages, reply) ∈ remote_calls (events_since w1 w2) →
      messages
      = [SystemMessage (system_instruction v2)]
        ++ chat_history (shared_memory w0)
        ++ [HumanMessage
              (recorded_input v1 req1 (knowledge_base (req_symptoms req1)));
            AIMessage t1]
        ++ [HumanMessage
              (task_message v2 req2 (knowledge_base (req_symptoms req2)))].
Proof.
  intros H1 H2. apply invoke_memory in H1.
  apply invoke_calls in H2 as (Hsome & Hall & _).
  split; [done|]. intros llm messages reply Hin.
  eapply Forall_forall in Hall; [|exact Hin]. cbn [fst snd] in Hall.
  rewrite Hall, H1, chat_history_app. by rewrite <- !app_assoc.
Qed.

(** The text of the Lifestyle prompt that comes before the symptoms. *)
Lemma lifestyle_prompt_split (symptoms report : str) :
  lifestyle_prompt symptoms report
  = take 145 (lifestyle_prompt [] [])
    ++ (symptoms ++ nl ++ nl
        ++ lit "Medical report text (may be empty):" ++ nl)
    ++ report.
Proof.
  unfold lifestyle_prompt. rewrite <- !app_assoc. by vm_compute.
Qed.

(** X6.  The input the Lifestyle agent records is its label, the fixed
    preamble of its prompt and the 15 characters that follow: it is the
    same whatever the report says, and of symptoms that are 15 characters
    or longer it keeps the first 15. *)
Theorem lifestyle_turn_ignores_report (symptoms report : str)
    (w w' : World) (text : str) :
  lifestyle_agent symptoms report w = (Returned text, w') →
  let preamble :=
    lit "Given the conversation so far, the user's symptoms, and any available "
    ++ lit "medical report text, suggest lifestyle changes and constraints."
    ++ nl ++ nl ++ lit "Symptoms:" ++ nl in
  ∃ input,
    shared_memory w' = shared_memory w ++ [mkTurn input text]
    ∧ input
      = lit "[lifestyle_agent] " ++ preamble
        ++ take 15 (symptoms ++ nl ++ nl
                    ++ lit "Medical report text (may be empty):" ++ nl)
    ∧ (∀ other, input
                = lit "[lifestyle_agent] "
                  ++ take 160 (lifestyle_prompt symptoms other))
    ∧ (15 ≤ length symptoms →
         input = lit "[lifestyle_agent] " ++ preamble ++ take 15 symptoms).
Proof.
  intros Hrun preamble.
  apply (invoke_memory Lifestyle (mkRequest symptoms report [] [])) in Hrun.
  cbn [recorded_input task_message req_symptoms req_report] in Hrun.
  assert (take 145 (lifestyle_prompt [] []) = preamble) as Hpre
    by (by vm_compute).
  assert (∀ r, take 160 (lifestyle_prompt symptoms r)
               = preamble
                 ++ take 15 (symptoms ++ nl ++ nl
                     ++ lit "Medical report text (may be empty):" ++ nl))
    as Hslice.
  { intros r. rewrite lifestyle_prompt_split, Hpre.
    rewrite (take_app_add' _ _ 145 15) by (by vm_compute).
    f_equal. apply take_app_le. rewrite !length_app. literal_lengths. lia. }
  eexists. split; [exact Hrun|]. split; [by rewrite Hslice|].
  split; [intros other; by rewrite !Hslice|].
  intros Hlong. rewrite Hslice. do 2 f_equal. by apply take_app_le.
Qed.

(** X7.  Every request an agent sends ends with a task message that
    contains the symptom text literally, and for the Symptom, Lifestyle
    and Diet agents the report text as well. *)
Theorem task_message_carries_inputs (v : Variant) (req : AgentRequest)
    (w w' : World) (out : Outcome str) :
  invoke v req w = (out, w') →
  ∀ llm messages reply,
    (llm, messages, reply) ∈ remote_calls (events_since w w') →
    ∃ task, last messages = Some (HumanMessage task)
            ∧ contains task (req_symptoms req)
            ∧ (v ≠ Fitness → contains task (req_report req)).
Proof.
  intros Hrun llm messages reply Hin.
  apply invoke_calls in Hrun as (_ & Hall & _).
  eapply Forall_forall in Hall; [|exact Hin]. cbn [fst snd] in Hall.
  subst messages. eexists. split.
  { rewrite app_assoc. apply last_snoc. }
  destruct v; cbn [task_message];
    unfold symptom_request, lifestyle_prompt, diet_prompt, fitness_prompt.
  all: split; [find_part|]. all: intros Hv; try done. all: find_part.
Qed.


(** X15.  The failed credential is marked before the retry draws its
    key, so the retry does not go out on the credential that has just
    failed as long as the pool holds another credential that is still
    available. *)
Theorem retry_avoids_failed_key (v : Variant) (req : AgentRequest)
    (w w' : World) (out : Outcome str) (k : Credential)
    (first second : ChatOpenAI * list Message * (Error + str)) :
  invoke v req w = (out, w') →
  remote_calls (events_since w w') = [first; second] →
  k ∈ keys (key_pool w) → available (key_pool w) k → k ≠ api_key first.1.1 →
  api_key second.1.1 ≠ api_key first.1.1
  ∧ available (key_pool w) (api_key second.1.1).
Proof.
  intros Hrun Hcalls Hin Hav Hne.
  by_course v req w Hrun; simplify_eq; cbn [fst snd api_key] in *.
  all: assert (keys q1 = keys (key_pool w)) as Hkeys
    by (by rewrite <- (get_next_key_keys (key_pool w)), Hk1).
  all: pose proof (drawn_exhausted _ _ _ Hk1) as Hexh.
  all: assert (available (api_key_pool.mark_key_quota_exceeded k1 q1) k2)
    as Hk.
  1,3: pose proof (get_next_key_available
                     (api_key_pool.mark_key_quota_exceeded k1 q1) k) as Hk;
    rewrite Hk2 in Hk; apply Hk;
    [ change (k ∈ keys q1); by rewrite Hkeys
    | unfold available in *; cbn [exhausted api_key_pool.mark_key_quota_exceeded];
      rewrite Hexh; apply not_elem_of_union; split;
      [by apply not_elem_of_singleton | done] ].
  all: unfold available in *;
    cbn [exhausted api_key_pool.mark_key_quota_exceeded] in Hk;
    rewrite Hexh in Hk; apply not_elem_of_union in Hk as [Hk2' Hk3];
    apply not_elem_of_singleton in Hk2'; by split.
Qed.

End AgentProperties.

Section AgentRuns.
Import api_key_pool memory agents fixtures.

Lemma retry_exhaustion_witness :
  let w := fresh [inl quota; inl quota] in
  let run := @invoke scripted Symptom request w in
  run.1 = Raised quota
  ∧ marked_exhausted (events_since w run.2) = [lit "gsk_A"]
  ∧ shared_memory run.2 = [].
Proof.
  intros w run.
  destruct (@retry_exhaustion scripted Symptom request w run.2 run.1
              quota quota)
    as (Hout & (llm1 & llm2 & ms & Hcalls & Hmarked & _) & Hmem);
    [by vm_compute | by vm_compute | by vm_compute |].
  split; [exact Hout|]. split; [|exact Hmem].
  rewrite Hmarked. assert (remote_calls (events_since w run.2) !! 0
                           = Some (llm1, ms, inl quota)) as Hfirst
    by (by rewrite Hcalls).
  vm_compute in Hfirst. injection Hfirst as <- _. reflexivity.
Defined.

(** C1 as stated fails: with two credentials in the pool and a stub that
    fails twice, the Symptom agent draws both credentials and raises, but
    marks only the first one exhausted; no two distinct credentials are
    marked. *)
Lemma double_failure_marks_one_key :
  let w := fresh [inl quota; inl quota] in
  let run := @invoke scripted Symptom request w in
  run.1 = Raised quota
  ∧ (remote_calls (events_since w run.2)).*2 = [inl quota; inl quota]
  ∧ keys_handed_out (events_since w run.2) = [lit "gsk_A"; lit "gsk_B"]
  ∧ marked_exhausted (events_since w run.2) = [lit "gsk_A"]
  ∧ ¬ (∃ c1 c2, c1 ≠ c2 ∧ c1 ∈ exhausted (key_pool run.2)
                ∧ c2 ∈ exhausted (key_pool run.2)).
Proof.
  intros w run.
  split; [by vm_compute|]. split; [by vm_compute|].
  split; [by vm_compute|]. split; [by vm_compute|].
  assert (exhausted (key_pool run.2) = {[ lit "gsk_A" ]}) as ->
    by (by vm_compute).
  intros (c1 & c2 & Hne & H1 & H2).
  apply elem_of_singleton in H1, H2. congruence.
Qed.

Lemma retry_once_bound_witness :
  let w := fresh [inl quota; inr (lit "rest and fluids")] in
  let run := @invoke scripted Lifestyle request w in
  run.1 = Returned (lit "rest and fluids")
  ∧ marked_exhausted (events_since w run.2) = [lit "gsk_A"]
  ∧ length (shared_memory run.2) = 1.
Proof.
  intros w run.
  destruct (@retry_once_bound scripted Lifestyle request w run.2 run.1
              quota (lit "rest and fluids"))
    as (Hout & (llm1 & llm2 & ms & Hcalls & Hmarked & _) & (input & Hmem));
    [by vm_compute | by vm_compute | by vm_compute |].
  split; [exact Hout|]. split; [|by rewrite Hmem].
  rewrite Hmarked. assert (remote_calls (events_since w run.2) !! 0
                           = Some (llm1, ms, inl quota)) as Hfirst
    by (by rewrite Hcalls).
  vm_compute in Hfirst. injection Hfirst as <- _. reflexivity.
Defined.

Lemma history_append_only_witness :
  let w0 := fresh [inr (lit "see a doctor"); inr (lit "sleep more");
                   inr (lit "eat greens")] in
  let w1 := (@symptom_agent scripted (lit "fever") (lit "Hb 11.2") w0).2 in
  let w2 := (@lifestyle_agent scripted (lit "fever") (lit "Hb 11.2") w1).2 in
  let w3 := (@diet_agent scripted (lit "fever") (lit "Hb 11.2")
               (lit "sleep more") w2).2 in
  let failed := (@invoke scripted Fitness request
                   (fresh [inl quota; inl quota])).2 in
  turn_output <$> shared_memory w3
  = [lit "see a doctor"; lit "sleep more"; lit "eat greens"]
  ∧ shared_memory failed = [].
Proof.
  intros w0 w1 w2 w3 failed.
  destruct (@history_append_only scripted) as [Hone Hseq]. split.
  - destruct (Hseq (lit "fever") (lit "Hb 11.2") (lit "fever") (lit "Hb 11.2")
                (lit "fever") (lit "Hb 11.2") (lit "sleep more")
                (lit "see a doctor") (lit "sleep more") (lit "eat greens")
                w0 w1 w2 w3) as [Hmem _];
      [by vm_compute | by vm_compute | by vm_compute |].
    rewrite Hmem. reflexivity.
  - destruct (Hone Fitness request (fresh [inl quota; inl quota]) failed
                (Raised quota)) as [Hmem _]; [by vm_compute|].
    exact Hmem.
Defined.

Lemma truncation_bound_witness :
  let w := fresh [inr (lit "see a doctor")] in
  let req := mkRequest long_symptoms (lit "Hb 11.2") [] [] in
  ∃ t, shared_memory (@invoke scripted Symptom req w).2 = [t]
       ∧ turn_output t = lit "see a doctor"
       ∧ length (turn_input t) = 248.
Proof.
  intros w req.
  destruct (@truncation_bound scripted Symptom req w
              (@invoke scripted Symptom req w).2 (lit "see a doctor"))
    as (t & Hmem & Hout & _ & Hlen); [by vm_compute|].
  exists t. split; [exact Hmem|]. split; [exact Hout|].
  rewrite Hlen. by vm_compute.
Defined.

(** C4 as stated fails: the input side recorded by the Symptom agent
    carries the symptoms text in full, 248 characters here, and the one
    recorded by the Lifestyle agent carries its label before the 160
    characters of request text, 178 characters in all; both exceed the
    truncation constants 120 and 160. *)
Lemma recorded_input_exceeds_constant :
  let req := mkRequest long_symptoms (lit "Hb 11.2") [] [] in
  let w := fresh [inr (lit "see a doctor")] in
  let symptom := @invoke scripted Symptom req w in
  let lifestyle := @invoke scripted Lifestyle req w in
  (∃ t, symptom.1 = Returned (lit "see a doctor")
        ∧ shared_memory symptom.2 = [t]
        ∧ length (turn_input t) = 248
        ∧ ¬ length (turn_input t) ≤ 160)
  ∧ (∃ t, lifestyle.1 = Returned (lit "see a doctor")
          ∧ shared_memory lifestyle.2 = [t]
          ∧ length (turn_input t) = 178
          ∧ ¬ length (turn_input t) ≤ 160).
Proof.
  intros req w symptom lifestyle. split.
  - eexists. split; [by vm_compute|]. split; [by vm_compute|].
    split; [by vm_compute | vm_compute; lia].
  - eexists. split; [by vm_compute|]. split; [by vm_compute|].
    split; [by vm_compute | vm_compute; lia].
Qed.

Lemma chaining_contract_witness :
  let w := fresh [inr (lit "eat greens")] in
  let run := @diet_agent scripted (lit "fever") (lit "Hb 11.2")
               (lit "sleep more") w in
  ∃ llm messages reply task,
    head (remote_calls (events_since w run.2)) = Some (llm, messages, reply)
    ∧ last messages = Some (HumanMessage task)
    ∧ contains task (lit "sleep more").
Proof.
  intros w run.
  destruct (@chaining_contract scripted) as [Hdiet _].
  destruct (Hdiet (lit "fever") (lit "Hb 11.2") (lit "sleep more") w run.2
              run.1) as [Hsome Hall]; [by vm_compute|].
  destruct (remote_calls (events_since w run.2))
    as [|[[llm messages] reply] rest]; [done|].
  destruct (Hall llm messages reply) as (task & Hlast & Hpart); [by left|].
  by exists llm, messages, reply, task.
Defined.

Lemma message_composition_witness :
  let w := fresh [inr (lit "eat greens")] in
  let run := @invoke scripted Diet request w in
  knowledge_fetches (events_since w run.2) = [lit "fever and cough"]
  ∧ remote_calls (events_since w run.2) ≠ [].
Proof.
  intros w run.
  destruct (@message_composition scripted Diet request w run.2 run.1)
    as (Hsome & _ & Hkb & _); [by vm_compute|].
  split; [exact Hkb | exact Hsome].
Defined.

Lemma first_attempt_success_witness :
  let w := fresh [inr (lit "see a doctor")] in
  let run := @invoke scripted Symptom request w in
  run.1 = Returned (lit "see a doctor")
  ∧ marked_exhausted (events_since w run.2) = [].
Proof.
  intros w run.
  destruct (@first_attempt_success scripted Symptom request w run.2 run.1
              (lit "see a doctor")) as (Hout & _ & Hmarked & _);
    [by vm_compute | by vm_compute |].
  split; [exact Hout | exact Hmarked].
Defined.

Lemma attempt_budget_witness :
  let w := fresh [inl quota; inr (lit "walk daily")] in
  let run := @invoke scripted Fitness request w in
  length (remote_calls (events_since w run.2)) ≤ 2
  ∧ ∃ llm ms e,
      remote_calls (events_since w run.2) !! 0 = Some (llm, ms, inl e)
      ∧ api_key llm = lit "gsk_A".
Proof.
  intros w run.
  destruct (@attempt_budget scripted Fitness request w run.2 run.1)
    as ([_ Hmost] & _ & Hmarked); [by vm_compute|].
  split; [exact Hmost|]. apply Hmarked.
  apply (bool_decide_unpack _). by vm_compute.
Defined.

Lemma handles_use_drawn_keys_witness :
  let w := fresh [inl quota; inr (lit "walk daily")] in
  let run := @invoke scripted Fitness request w in
  (λ call, api_key call.1.1) <$> remote_calls (events_since w run.2)
  = keys_handed_out (events_since w run.2).
Proof.
  intros w run.
  destruct (@handles_use_drawn_keys scripted Fitness request w run.2 run.1)
    as (Hkeys & _ & _); [by vm_compute|].
  exact Hkeys.
Defined.

Lemma outcome_is_last_reply_witness :
  let w := fresh [inl quota; inl (lit "503 unavailable")] in
  let run := @invoke scripted Diet request w in
  last (remote_calls (events_since w run.2)).*2
  = Some (inl (lit "503 unavailable")).
Proof.
  intros w run.
  apply (@outcome_is_last_reply scripted Diet request w run.2
           (Raised (lit "503 unavailable" : @Error scripted))).
  by vm_compute.
Defined.

Lemma later_agent_sees_earlier_turn_witness :
  let w0 := fresh [inr (lit "see a doctor"); inr (lit "sleep more")] in
  let w1 := (@invoke scripted Symptom request w0).2 in
  let w2 := (@invoke scripted Lifestyle request w1).2 in
  remote_calls (events_since w1 w2) ≠ [].
Proof.
  intros w0 w1 w2.
  destruct (@later_agent_sees_earlier_turn scripted Symptom Lifestyle request
              request w0 w1 w2 (lit "see a doctor")
              (Returned (lit "sleep more"))) as [Hsome _];
    [by vm_compute | by vm_compute |].
  exact Hsome.
Defined.

Lemma lifestyle_turn_ignores_report_witness :
  let w := fresh [inr (lit "sleep more")] in
  let w' := (@lifestyle_agent scripted (lit "fever and a dry cough")
               (lit "Hb 11.2 g/dL") w).2 in
  ∃ input,
    shared_memory w' = [mkTurn input (lit "sleep more")]
    ∧ drop 163 input = lit "fever and a dry".
Proof.
  intros w w'.
  destruct (@lifestyle_turn_ignores_report scripted
              (lit "fever and a dry cough") (lit "Hb 11.2 g/dL") w w'
              (lit "sleep more")) as (input & Hmem & _ & _ & Hlong);
    [by vm_compute|].
  exists input. split; [exact Hmem|].
  rewrite Hlong; [by vm_compute | vm_compute; lia].
Defined.

Lemma task_message_carries_inputs_witness :
  let w := fresh [inr (lit "see a doctor")] in
  let run := @invoke scripted Symptom request w in
  ∃ llm messages reply task,
    head (remote_calls (events_since w run.2)) = Some (llm, messages, reply)
    ∧ last messages = Some (HumanMessage task)
    ∧ contains task (lit "Hb 11.2 g/dL").
Proof.
  intros w run.
  pose proof (@task_message_carries_inputs scripted Symptom request w run.2
                run.1) as Hall.
  destruct (remote_calls (events_since w run.2))
    as [|[[llm messages] reply] rest] eqn:Hcalls; [by vm_compute in Hcalls|].
  destruct (Hall ltac:(by vm_compute) llm messages reply)
    as (task & Hlast & _ & Hreport); [by left|].
  exists llm, messages, reply, task.
  split; [done|]. split; [exact Hlast|]. by apply Hreport.
Defined.

Lemma retry_avoids_failed_key_witness :
  let w := fresh [inl quota; inr (lit "walk daily")] in
  let run := @invoke scripted Fitness request w in
  (λ call, api_key call.1.1) <$> remote_calls (events_since w run.2)
  = [lit "gsk_A"; lit "gsk_B"].
Proof.
  intros w run.
  destruct (remote_calls (events_since w run.2))
    as [|first [|second [|third rest]]] eqn:Hcalls;
    try by vm_compute in Hcalls.
  destruct (@retry_avoids_failed_key scripted Fitness request w run.2 run.1
              (lit "gsk_B") first second) as [Hother _].
  - by vm_compute.
  - exact Hcalls.
  - right. by left.
  - unfold available. apply (bool_decide_unpack _). by vm_compute.
  - vm_compute in Hcalls. injection Hcalls as <- _. by vm_compute.
  - vm_compute in Hcalls. injection Hcalls as <- <-. by vm_compute.
Defined.

(** With a single credential in the pool the retry goes out on the
    credential that has just been marked: it is drawn twice and marked
    once. *)
Example single_key_retry :
  let w := @mkWorld scripted one_key [] [inl quota; inl quota] [] in
  let run := @invoke scripted Symptom request w in
  keys_handed_out (events_since w run.2) = [lit "gsk_A"; lit "gsk_A"]
  ∧ marked_exhausted (events_since w run.2) = [lit "gsk_A"].
Proof. by vm_compute. Qed.

End AgentRuns.

(** ** The history store *)

Section HistoryStoreProperties.
Import history_store.
Context {Entry : Type}.

(** The file after [save_history], as one update of the stored map. *)
Lemma save_history_load (user_id : str) (entry : Entry)
    (file : option (gmap str (list Entry))) :
  load (save_history user_id entry file)
  = <[user_id := default [] (load file !! user_id) ++ [entry]]> (load file).
Proof.
  unfold save_history, save, setdefault.
  destruct (load file !! user_id) as [entries|] eqn:Hl; cbn [load default].
  - done.
  - by rewrite insert_insert_eq.
Qed.

(** C8.  [save_history(user_id, entry)] appends [entry] to the end of that
    user's stored list, creating the list when the user had none, and
    leaves every other user's stored list unchanged; [get_history(user_id)]
    returns that user's stored list in order, and the empty list when the
    user has no recorded history or the backing file does not exist. *)
Theorem history_append_fetch (user_id : str) (entry : Entry)
    (file : option (gmap str (list Entry))) :
  get_history user_id (save_history user_id entry file)
  = get_history user_id file ++ [entry]
  ∧ (load file !! user_id = None →
       load (save_history user_id entry file) !! user_id = Some [entry])
  ∧ (∀ other, other ≠ user_id →
       load (save_history user_id entry file) !! other = load file !! other)
  ∧ (∀ entries, load file !! user_id = Some entries →
       get_history user_id file = entries)
  ∧ (load file !! user_id = None → get_history user_id file = [])
  ∧ get_history (Entry:=Entry) user_id None = [].
Proof.
  unfold get_history. rewrite save_history_load.
  split; [|split; [|split; [|split; [|split]]]].
  - by rewrite lookup_insert_eq.
  - intros ->. by rewrite lookup_insert_eq.
  - intros other Hne. by rewrite lookup_insert_ne.
  - by intros entries ->.
  - by intros ->.
  - done.
Qed.

(** C9.  The two textual definitions of [save_history] and the two of
    [get_history] agree on every input: the first of each pair computes
    the same file and the same result as the second, which shadows it. *)
Theorem duplicate_definitions_agree (user_id : str) (entry : Entry)
    (file : option (gmap str (list Entry))) :
  save_history_1 user_id entry file = save_history user_id entry file
  ∧ get_history_1 user_id file = get_history user_id file.
Proof. split; reflexivity. Qed.

(** ** Further properties of the history store *)

(** X8.  Saving a batch of entries for one user, one call after another,
    extends that user's history by the batch in the order of the calls and
    leaves every other user's history as it was. *)
Theorem save_history_accumulates (user_id : str) (entries : list Entry)
    (file : option (gmap str (list Entry))) :
  let file' := foldl (λ f e, save_history user_id e f) file entries in
  get_history user_id file' = get_history user_id file ++ entries
  ∧ ∀ other, other ≠ user_id →
      get_history other file' = get_history other file.
Proof.
  revert file. induction entries as [|e entries IH]; intros file file'.
  - split; [by rewrite app_nil_r | done].
  - destruct (IH (save_history user_id e file)) as [Hown Hother].
    unfold file'. cbn [foldl]. split.
    + rewrite Hown. unfold get_history. rewrite save_history_load.
      rewrite lookup_insert_eq. cbn [default from_option id].
      by rewrite <- app_assoc.
    + intros other Hne. rewrite (Hother other Hne).
      unfold get_history. rewrite save_history_load.
      by rewrite lookup_insert_ne.
Qed.

(** X9.  Saves for two different users commute: whichever is made first,
    the stored mapping is the same. *)
Theorem save_history_commutes (user1 user2 : str) (entry1 entry2 : Entry)
    (file : option (gmap str (list Entry))) :
  user1 ≠ user2 →
  load (save_history user1 entry1 (save_history user2 entry2 file))
  = load (save_history user2 entry2 (save_history user1 entry1 file)).
Proof.
  intros Hne. rewrite !save_history_load.
  rewrite !lookup_insert_ne by done. by apply insert_insert_ne.
Qed.

(** X10.  [save_history] never loses anything: afterwards the file exists,
    its users are the users it had together with [user_id], and every
    user's earlier history is a prefix of that user's history. *)
Theorem save_history_keeps_everything (user_id : str) (entry : Entry)
    (file : option (gmap str (list Entry))) :
  save_history user_id entry file ≠ None
  ∧ dom (load (save_history user_id entry file))
    = {[ user_id ]} ∪ dom (load file)
  ∧ ∀ user, get_history user file
            `prefix_of` get_history user (save_history user_id entry file).
Proof.
  split; [|split].
  - unfold save_history. by destruct (setdefault _ _ _).
  - rewrite save_history_load. apply dom_insert_L.
  - intros user. unfold get_history. rewrite save_history_load.
    destruct (decide (user = user_id)) as [->|Hne].
    + rewrite lookup_insert_eq. by apply prefix_app_r.
    + by rewrite lookup_insert_ne.
Qed.

End HistoryStoreProperties.

Section HistoryStoreRuns.
Import history_store.

Lemma history_append_fetch_witness :
  get_history (lit "alice")
    (save_history (lit "alice") (lit "run 2") fixtures.one_history)
  = [lit "run 1"; lit "run 2"]
  ∧ get_history (lit "bob")
      (save_history (lit "bob") (lit "run 1") fixtures.one_history)
    = [lit "run 1"]
  ∧ get_history (lit "alice")
      (save_history (lit "bob") (lit "run 1") fixtures.one_history)
    = [lit "run 1"]
  ∧ get_history (lit "bob") fixtures.one_history = [].
Proof.
  destruct (history_append_fetch (lit "alice") (lit "run 2")
              fixtures.one_history) as (Happ & _ & _ & Hget & _ & _).
  destruct (history_append_fetch (lit "bob") (lit "run 1")
              fixtures.one_history) as (_ & Hnew & Hother & _ & Hnone & _).
  split; [|split; [|split]].
  - rewrite Happ, (Hget [lit "run 1"]); [done | by vm_compute].
  - unfold get_history. rewrite Hnew; [done | by vm_compute].
  - unfold get_history. rewrite (Hother (lit "alice")); [|by vm_compute].
    by vm_compute.
  - apply Hnone. by vm_compute.
Defined.


Lemma save_history_accumulates_witness :
  get_history (lit "alice")
    (foldl (λ f e, save_history (lit "bob") e f) fixtures.one_history
       [lit "run 1"; lit "run 2"])
  = [lit "run 1"].
Proof.
  destruct (save_history_accumulates (lit "bob") [lit "run 1"; lit "run 2"]
              fixtures.one_history) as [_ Hother].
  rewrite (Hother (lit "alice")); by vm_compute.
Defined.

Lemma save_history_commutes_witness :
  load (save_history (lit "alice") (lit "run 2")
          (save_history (lit "bob") (lit "run 1") fixtures.one_history))
  = load (save_history (lit "bob") (lit "run 1")
            (save_history (lit "alice") (lit "run 2") fixtures.one_history)).
Proof. apply save_history_commutes. by vm_compute. Defined.

End HistoryStoreRuns.

(** ** The user store *)

Section UserStoreProperties.
Import user_auth_store.

Lemma username_taken_spec (username : str) (users : list (gmap str str)) :
  existsb (λ u, bool_decide (u !! lit "username" = Some username)) users
  = true
  ↔ username ∈ usernames users.
Proof.
  unfold usernames. rewrite existsb_exists, list_elem_of_omap. split.
  - intros (u & Hin & Hu). exists u. split; [by apply list_elem_of_In|].
    by apply bool_decide_eq_true in Hu.
  - intros (u & Hin & Hu). exists u. split; [by apply list_elem_of_In|].
    by apply bool_decide_eq_true.
Qed.

(** C10.  [create_user(username, password, full_name)] returns False and
    leaves the stored user list untouched when some stored user already
    has that username; otherwise it appends exactly one record, the new
    user's, and returns True.  Hence usernames that were unique stay
    unique. *)
Theorem create_user_unique (username password full_name : str)
    (file : option (list (gmap str str))) :
  (username ∈ usernames (_load_users file) →
     create_user username password full_name file = (false, file))
  ∧ (username ∉ usernames (_load_users file) →
       ∃ record,
         create_user username password full_name file
         = (true, Some (_load_users file ++ [record]))
         ∧ record !! lit "username" = Some username
         ∧ record !! lit "password" = Some password
         ∧ record !! lit "full_name" = Some full_name)
  ∧ (NoDup (usernames (_load_users file)) →
       NoDup (usernames
                (_load_users
                   (create_user username password full_name file).2))).
Proof.
  unfold create_user.
  destruct (existsb _ (_load_users file)) eqn:Htaken.
  - apply username_taken_spec in Htaken. split; [done|]. split; [done|].
    done.
  - assert (username ∉ usernames (_load_users file)) as Hfree.
    { intros Hin. apply username_taken_spec in Hin. congruence. }
    split; [done|]. split.
    + intros _. eexists. split; [reflexivity|]. by simplify_map_eq.
    + intros Hnodup. cbn [snd _save_users _load_users].
      unfold usernames in *. rewrite omap_app. cbn [omap list_omap].
      rewrite lookup_insert_eq. cbn.
      apply NoDup_app. split; [done|]. split; [|apply NoDup_singleton].
      intros x Hx ->%list_elem_of_singleton. done.
Qed.

Lemma create_user_unique_witness :
  create_user (lit "alice") (lit "hunter2") (lit "Alice B") fixtures.one_user
  = (false, fixtures.one_user)
  ∧ (create_user (lit "bob") (lit "hunter2") (lit "Bob B")
       fixtures.one_user).1 = true
  ∧ NoDup (usernames
             (_load_users
                (create_user (lit "bob") (lit "hunter2") (lit "Bob B")
                   fixtures.one_user).2)).
Proof.
  destruct (create_user_unique (lit "alice") (lit "hunter2") (lit "Alice B")
              fixtures.one_user) as (Htaken & _ & _).
  destruct (create_user_unique (lit "bob") (lit "hunter2") (lit "Bob B")
              fixtures.one_user) as (_ & Hfree & Hnodup).
  split; [|split].
  - apply Htaken. apply (bool_decide_unpack _). by vm_compute.
  - destruct Hfree as (record & -> & _); [|done].
    apply (bool_decide_unpack _). by vm_compute.
  - apply Hnodup. apply (bool_decide_unpack _). by vm_compute.
Defined.

(** ** Further properties of the user store *)

Lemma matches_spec (username password : str) (u : gmap str str) :
  matches username password u = true
  ↔ u !! lit "username" = Some username ∧ u !! lit "password" = Some password.
Proof.
  unfold matches. by rewrite andb_true_iff, !bool_decide_eq_true.
Qed.

(** What [create_user] does with a username that is still free. *)
Lemma create_user_free (username password full_name : str)
    (file : option (list (gmap str str))) :
  username ∉ usernames (_load_users file) →
  create_user username password full_name file
  = (true,
     Some (_load_users file
           ++ [ <[lit "username" := username]>
                  (<[lit "password" := password]>
                     {[ lit "full_name" := full_name ]}) ])).
Proof.
  intros Hfree. unfold create_user.
  destruct (existsb _ _) eqn:Htaken; [|done].
  by apply username_taken_spec in Htaken.
Qed.

Lemma create_user_taken (username password full_name : str)
    (file : option (list (gmap str str))) :
  username ∈ usernames (_load_users file) →
  create_user username password full_name file = (false, file).
Proof.
  intros Htaken. apply username_taken_spec in Htaken.
  unfold create_user. by rewrite Htaken.
Qed.

(** X11.  [check_credentials] returns the first stored record whose
    username and password both equal the ones given, and None exactly
    when no stored record has both. *)
Theorem check_credentials_first_match (username password : str)
    (file : option (list (gmap str str))) :
  match check_credentials username password file with
  | Some u =>
      ∃ i, _load_users file !! i = Some u
           ∧ u !! lit "username" = Some username
           ∧ u !! lit "password" = Some password
           ∧ ∀ j v, j < i → _load_users file !! j = Some v →
               ¬ (v !! lit "username" = Some username
                  ∧ v !! lit "password" = Some password)
  | None =>
      ∀ u, u ∈ _load_users file →
        ¬ (u !! lit "username" = Some username
           ∧ u !! lit "password" = Some password)
  end.
Proof.
  unfold check_credentials.
  destruct (list_find _ _) as [[i u]|] eqn:Hfind; cbn [fmap option_fmap option_map snd].
  - apply list_find_Some in Hfind as (Hi & Hu & Hfirst).
    apply matches_spec in Hu as [Hname Hpass].
    exists i. split; [done|]. split; [done|]. split; [done|].
    intros j v Hj Hv Hboth. apply (Hfirst j v Hv Hj). by apply matches_spec.
  - intros u Hin Hboth. apply list_find_None in Hfind.
    eapply Forall_forall in Hfind; [|exact Hin].
    apply Hfind. by apply matches_spec.
Qed.

(** X12.  Signing up and then logging in: after [create_user] has
    registered a username that was free, [check_credentials] with the same
    username and password returns the record just created. *)
Theorem sign_up_then_log_in (username password full_name : str)
    (file : option (list (gmap str str))) :
  username ∉ usernames (_load_users file) →
  check_credentials username password
    (create_user username password full_name file).2
  = Some (<[lit "username" := username]>
            (<[lit "password" := password]>
               {[ lit "full_name" := full_name ]})).
Proof.
  intros Hfree. rewrite create_user_free by done.
  unfold check_credentials. cbn [snd _load_users].
  rewrite list_find_app_r.
  - cbn. rewrite decide_True; [done|]. apply matches_spec.
    by simplify_map_eq.
  - apply list_find_None, Forall_forall. intros u Hin [Hname _]%matches_spec.
    apply Hfree. unfold usernames. apply list_elem_of_omap. by exists u.
Qed.

(** X13.  [create_user] does not disturb the accounts on file: a login
    that succeeded before still returns the same record afterwards, and
    for any other username [check_credentials] answers as it did before. *)
Theorem create_user_keeps_logins (username password full_name : str)
    (file : option (list (gmap str str))) :
  (∀ username' password' u,
     check_credentials username' password' file = Some u →
     check_credentials username' password'
       (create_user username password full_name file).2 = Some u)
  ∧ (∀ username' password',
       username' ≠ username →
       check_credentials username' password'
         (create_user username password full_name file).2
       = check_credentials username' password' file).
Proof.
  destruct (decide (username ∈ usernames (_load_users file))) as [Hin|Hfree].
  { rewrite create_user_taken by done. done. }
  rewrite create_user_free by done. unfold check_credentials.
  cbn [snd _load_users]. split.
  - intros username' password' u Hu.
    destruct (list_find _ (_load_users file)) as [[i v]|] eqn:Hfind; [|done].
    by erewrite list_find_app_l.
  - intros username' password' Hne.
    destruct (list_find _ (_load_users file)) as [[i v]|] eqn:Hfind.
    + by erewrite list_find_app_l.
    + rewrite list_find_app_r by done. cbn. rewrite decide_False; [done|].
      intros [Hname _]%matches_spec. by simplify_map_eq.
Qed.

(** X14.  A username is registered at most once: whatever a first
    [create_user] did, a second one for the same username returns False
    and leaves the file as the first one left it. *)
Theorem create_user_twice (username password1 full_name1 password2
    full_name2 : str) (file : option (list (gmap str str))) :
  create_user username password2 full_name2
    (create_user username password1 full_name1 file).2
  = (false, (create_user username password1 full_name1 file).2).
Proof.
  apply create_user_taken.
  destruct (decide (username ∈ usernames (_load_users file))) as [Hin|Hfree].
  - by rewrite create_user_taken.
  - rewrite create_user_free by done. cbn [snd _load_users].
    unfold usernames. rewrite omap_app. apply elem_of_app. right.
    cbn. rewrite lookup_insert_eq. by left.
Qed.

Lemma check_credentials_first_match_witness :
  (∃ u, check_credentials (lit "alice") (lit "s3cret") fixtures.one_user
        = Some u
        ∧ u !! lit "full_name" = Some (lit "Alice A"))
  ∧ ∀ u, u ∈ _load_users fixtures.one_user →
      ¬ (u !! lit "username" = Some (lit "alice")
         ∧ u !! lit "password" = Some (lit "guess")).
Proof.
  split.
  - pose proof (check_credentials_first_match (lit "alice") (lit "s3cret")
                  fixtures.one_user) as Hfound.
    destruct (check_credentials _ _ _) as [u|] eqn:Hu; [|by vm_compute in Hu].
    exists u. split; [done|].
    destruct Hfound as (i & Hi & _). destruct i as [|i]; [|by vm_compute in Hi].
    injection Hi as <-. by vm_compute.
  - pose proof (check_credentials_first_match (lit "alice") (lit "guess")
                  fixtures.one_user) as Hnone.
    destruct (check_credentials _ _ _) as [u|] eqn:Hu; [by vm_compute in Hu|].
    exact Hnone.
Defined.

Lemma sign_up_then_log_in_witness :
  (λ u : gmap str str, u !! lit "full_name")
    <$> check_credentials (lit "bob") (lit "hunter2")
          (create_user (lit "bob") (lit "hunter2") (lit "Bob B")
             fixtures.one_user).2
  = Some (Some (lit "Bob B")).
Proof.
  rewrite sign_up_then_log_in.
  - by vm_compute.
  - apply (bool_decide_unpack _). by vm_compute.
Defined.

Lemma create_user_keeps_logins_witness :
  (λ u : gmap str str, u !! lit "full_name")
    <$> check_credentials (lit "alice") (lit "s3cret")
          (create_user (lit "bob") (lit "hunter2") (lit "Bob B")
             fixtures.one_user).2
  = Some (Some (lit "Alice A"))
  ∧ check_credentials (lit "carol") (lit "s3cret")
      (create_user (lit "bob") (lit "hunter2") (lit "Bob B")
         fixtures.one_user).2
    = None.
Proof.
  destruct (create_user_keeps_logins (lit "bob") (lit "hunter2") (lit "Bob B")
              fixtures.one_user) as [Hkept Hother].
  split.
  - erewrite Hkept; [|by vm_compute]. by vm_compute.
  - rewrite Hother; by vm_compute.
Defined.

End UserStoreProperties.
